(** * avnir_compute_volume_per_label: per-label volumes of a label map

    A shallow embedding of [scripts/avnir_compute_volume_per_label.py] and
    the properties of its volume report.

    Conventions of the embedding.
    - A numpy array is represented by the list of its elements in C order.
      Every array operation of the script ([!=], [==], boolean-mask
      selection, [np.unique], [np.sum]) acts on the elements irrespective
      of the shape, so the shape is not kept.
    - Voxel values and label identifiers are integers ([Z]).
    - A finite floating-point number is represented by the rational it
      denotes ([Qc], rationals in lowest terms, so that equal numbers are
      equal terms); rounding, overflow and underflow are not modelled.  The
      special values that numpy's division produces for a zero divisor
      (under its default error state, which warns and does not raise) are
      kept: see [float64] and [true_divide].  Where a property turns on
      rounding, the expression of the script is given a second time in
      IEEE 754 arithmetic: see [label_volume_ieee].
    - The file system is a finite map from paths to files, threaded through
      [main] by a state-and-error monad. *)

From Stdlib Require Import QArith Qcanon Qcabs.
From Stdlib Require Import Floats.SpecFloat.
From stdpp Require Import gmap strings list sorting numbers.

Open Scope Z_scope.

(** ** Numbers *)

Inductive float64 : Type :=
  | Finite (q : Qc)
  | PosInf
  | NegInf
  | NaN.

#[global] Instance float64_eq_dec : EqDecision float64.
Proof. solve_decision. Defined.

#[global] Instance float64_inhabited : Inhabited float64 := populate NaN.

Definition is_finite (x : float64) : bool :=
  match x with Finite _ => true | _ => false end.

(** Addition of two float64 values, with the IEEE 754 rules for the
    special values. *)
Definition float64_add (x y : float64) : float64 :=
  match x, y with
  | NaN, _ | _, NaN => NaN
  | PosInf, NegInf | NegInf, PosInf => NaN
  | PosInf, _ | _, PosInf => PosInf
  | NegInf, _ | _, NegInf => NegInf
  | Finite a, Finite b => Finite (a + b)
  end.

(** [x / d] for a finite float [x] and an integer [d], as numpy evaluates
    it on scalars: a zero divisor gives a signed infinity, or NaN for
    [0 / 0], and no exception. *)
Definition true_divide (x : Qc) (d : Z) : float64 :=
  if decide (d = 0) then
    if decide (0 < x)%Qc then PosInf
    else if decide (x < 0)%Qc then NegInf
    else NaN
  else Finite (x / Qc_of_Z d).

(** ** Array operations *)

(** [a != x] and [a == x]: element-wise comparison with a scalar. *)
Definition np_ne (a : list Z) (x : Z) : list bool :=
  (λ v, bool_decide (v ≠ x)) <$> a.

Definition np_eq (a : list Z) (x : Z) : list bool :=
  (λ v, bool_decide (v = x)) <$> a.

(** [a[m]]: the elements of [a] at the positions where the boolean array
    [m] holds [True]. *)
Fixpoint np_select (a : list Z) (m : list bool) : list Z :=
  match a, m with
  | v :: a', b :: m' => if b then v :: np_select a' m' else np_select a' m'
  | _, _ => []
  end.

(** [np.unique]: the distinct elements, in ascending order. *)
Definition np_unique (a : list Z) : list Z :=
  merge_sort Z.le (remove_dups a).

(** [np.sum] of an integer array, and of a boolean array ([True] counts
    for one). *)
Definition np_sum (a : list Z) : Z := foldl Z.add 0 a.

Definition np_sum_bool (m : list bool) : Z := np_sum (Z.b2z <$> m).

(** [np.prod] of a tuple of floats. *)
Definition np_prod (zs : list Qc) : Qc := foldl Qcmult 1%Qc zs.

(** [np.allclose(a, b)] with the default tolerances [rtol=1e-05] and
    [atol=1e-08]: [|a - b| <= atol + rtol * |b|] for every element. *)
Definition rtol : Qc := Q2Qc (1 # 100000).
Definition atol : Qc := Q2Qc (1 # 100000000).

Definition isclose (x y : Qc) : Prop :=
  (Qcabs (x - y) <= atol + rtol * Qcabs y)%Qc.

#[global] Instance isclose_dec x y : Decision (isclose x y).
Proof. unfold isclose. apply _. Defined.

Definition np_allclose (a b : list (list Qc)) : bool :=
  bool_decide (Forall2 (Forall2 isclose) a b).

(** ** Images and the file system *)

(** The header of an image, as far as the script reads it: the voxel
    spacing of [get_zooms()] and the 4x4 matrix of [get_best_affine()]. *)
Record Header : Type := {
  get_zooms : list Qc;
  get_best_affine : list (list Qc)
}.

Record Image : Type := {
  image_data : list Z;
  image_header : Header
}.

(** The report: label id -> field name -> value. *)
Abbreviation Report := (gmap Z (gmap string float64)).

Inductive File : Type :=
  | ImageFile (img : Image)
  | JsonFile (report : Report)
  | EmptyFile.

Abbreviation FS := (gmap string File).

(** ** Errors and the monad of [main] *)

Inductive Error : Type :=
  | InputNotFound (path : string)
  | OutputExists (path : string)
  | LoadError (path : string)
  | ValueError (msg : string).

Inductive outcome (A : Type) : Type :=
  | Ok (a : A)
  | Raise (e : Error).
Arguments Ok {A} a.
Arguments Raise {A} e.

Definition M (A : Type) : Type := FS → outcome A * FS.

Definition ret {A} (a : A) : M A := λ fs, (Ok a, fs).

Definition raise {A} (e : Error) : M A := λ fs, (Raise e, fs).

Definition bind {A B} (k : A → M B) (m : M A) : M B :=
  λ fs, match m fs with
        | (Ok a, fs') => k a fs'
        | (Raise e, fs') => (Raise e, fs')
        end.

(** The notations [x ← m; k] and [m;; k] of stdpp sequence two steps. *)
#[global] Instance M_ret : MRet M := @ret.
#[global] Instance M_bind : MBind M := @bind.

Definition exists_file (path : string) : M bool :=
  λ fs, (Ok (bool_decide (is_Some (fs !! path))), fs).

(** [open(path, "w")]: creates the file, or truncates it. *)
Definition open_w (path : string) : M unit :=
  λ fs, (Ok tt, <[path := EmptyFile]> fs).

(** [json.dump(report, file)]. *)
Definition json_dump (report : Report) (path : string) : M unit :=
  λ fs, (Ok tt, <[path := JsonFile report]> fs).

(** ** The command line *)

(** The namespace that [_build_arg_parser] produces: the two positional
    arguments, the optional [--brain_mask], and the overwrite flag. *)
Record Namespace : Type := {
  input_labels : string;
  output_json : string;
  brain_mask : option string;
  overwrite : bool
}.

(** Truth value of [args.brain_mask]: [None] and the empty string are
    false. *)
Definition truthy (o : option string) : option string :=
  match o with
  | Some s => if decide (s = EmptyString) then None else Some s
  | None => None
  end.

(** Modelled from the spec: [assert_inputs_exist] of [avnirpy.io.utils]
    is not part of the sources.  Every required path, and the optional
    one when it is given, must resolve to a file; otherwise the run stops
    with [InputNotFound]. *)
Definition assert_inputs_exist (required : string) (optional : option string) : M unit :=
  b ← exists_file required ;
  if negb b then raise (InputNotFound required)
  else match optional with
       | None => ret tt
       | Some p =>
           b ← exists_file p ;
           if negb b then raise (InputNotFound p) else ret tt
       end.

(** Modelled from the spec: [assert_outputs_exist] of [avnirpy.io.utils]
    is not part of the sources.  An output path that is already present
    stops the run with [OutputExists] unless overwriting was requested. *)
Definition assert_outputs_exist (args : Namespace) (path : string) : M unit :=
  b ← exists_file path ;
  if b && negb (overwrite args) then raise (OutputExists path) else ret tt.

(** Modelled from the spec: [load_image] of [avnirpy.io.image] is not
    part of the sources.  It returns the voxel array and the header of
    the image stored at the path, and fails on a file that is not an
    image. *)
Definition load_image (path : string) : M Image :=
  λ fs, match fs !! path with
        | Some (ImageFile img) => (Ok img, fs)
        | _ => (Raise (LoadError path), fs)
        end.

(** ** The computation *)

Definition space_error : Error :=
  ValueError "Label and brain mask images are in a different sapce.".

(** The test of lines 59-61. *)
Definition different_space (label_header mask_header : Header) : bool :=
  bool_decide (get_zooms label_header ≠ get_zooms mask_header)
  || negb (np_allclose (get_best_affine label_header) (get_best_affine mask_header)).

(** Line 64. *)
Definition labels_id (label_data : list Z) : list Z :=
  np_unique (np_select label_data (np_ne label_data 0)).

(** The expression [np.sum(label_data == label_id) * np.prod(zooms)]. *)
Definition label_volume (label_data : list Z) (zooms : list Qc) (label_id : Z) : Qc :=
  (Qc_of_Z (np_sum_bool (np_eq label_data label_id)) * np_prod zooms)%Qc.

(** The body of the loop, lines 68-74. [brain_mask_data] is [None] when
    [args.brain_mask] is false. *)
Definition loop_body (label_data : list Z) (zooms : list Qc)
    (brain_mask_data : option (list Z)) (volumes : Report) (label_id : Z) : Report :=
  let volumes :=
    if decide (volumes !! label_id = None) then <[label_id := ∅]> volumes
    else volumes in
  let volumes :=
    alter (insert "volume" (Finite (label_volume label_data zooms label_id)))
      label_id volumes in
  match brain_mask_data with
  | Some mask =>
      alter (insert "volume_normalized"
               (true_divide (label_volume label_data zooms label_id) (np_sum mask)))
        label_id volumes
  | None => volumes
  end.

(** Lines 64-74: the report. *)
Definition compute_volumes (label_data : list Z) (zooms : list Qc)
    (brain_mask_data : option (list Z)) : Report :=
  foldl (loop_body label_data zooms brain_mask_data) ∅ (labels_id label_data).

(** Lines 57-62. *)
Definition load_brain_mask (args : Namespace) (label_header : Header) : M (option (list Z)) :=
  match truthy (brain_mask args) with
  | Some path =>
      mask ← load_image path ;
      if different_space label_header (image_header mask)
      then raise space_error
      else ret (Some (image_data mask))
  | None => ret None
  end.

Definition main (args : Namespace) : M unit :=
  assert_inputs_exist (input_labels args) (brain_mask args);;
  assert_outputs_exist args (output_json args);;
  label ← load_image (input_labels args) ;
  let zooms := get_zooms (image_header label) in
  brain_mask_data ← load_brain_mask args (image_header label) ;
  let volumes := compute_volumes (image_data label) zooms brain_mask_data in
  open_w (output_json args);;
  json_dump volumes (output_json args).

(** ** Notions used by the statements *)

(** The number of voxels of an array that hold a given value, and the
    number of voxels that are not zero. *)
Definition voxel_count (a : list Z) (x : Z) : Z :=
  Z.of_nat (length (filter (λ v, v = x) a)).

Definition count_nonzero (a : list Z) : Z :=
  Z.of_nat (length (filter (λ v, v ≠ 0) a)).

(** The distinct non-zero values of an array, as a set. *)
Definition distinct_nonzero (a : list Z) : gset Z :=
  list_to_set (filter (λ v, v ≠ 0) a).


(** The sum of the [volume] fields of a report.  A report entry without
    the field counts as NaN. *)
Definition volume_of (entry : gmap string float64) : float64 :=
  default NaN (entry !! "volume").

Definition total_volume (volumes : Report) : float64 :=
  map_fold (λ _ entry acc, float64_add acc (volume_of entry)) (Finite 0%Qc) volumes.

(** What the loop leaves in the entry of a label: the fields it sets, on
    top of the fields [fields0] that were there. *)
Definition set_fields (label_data : list Z) (zooms : list Qc)
    (brain_mask_data : option (list Z)) (label_id : Z)
    (fields0 : gmap string float64) : gmap string float64 :=
  let fields := <["volume" := Finite (label_volume label_data zooms label_id)]> fields0 in
  match brain_mask_data with
  | Some mask =>
      <["volume_normalized" :=
          true_divide (label_volume label_data zooms label_id) (np_sum mask)]> fields
  | None => fields
  end.


(** Sums of integers and of rationals indexed by a list of labels. *)
Definition Zsum (f : Z → Z) (ids : list Z) : Z := foldr (λ i acc, f i + acc) 0 ids.

Definition Qcsum (f : Z → Qc) (ids : list Z) : Qc :=
  foldr (λ i acc, f i + acc)%Qc 0%Qc ids.

(** Lines 51-74: everything [main] does before it opens the report file. *)
Definition prepare (args : Namespace) : M Report :=
  assert_inputs_exist (input_labels args) (brain_mask args);;
  assert_outputs_exist args (output_json args);;
  label ← load_image (input_labels args);
  brain_mask_data ← load_brain_mask args (image_header label);
  mret (compute_volumes (image_data label) (get_zooms (image_header label))
          brain_mask_data).

(** The files a run reads: the label image and, when a brain mask is
    given, the mask image. *)
Definition inputs_of (args : Namespace) (fs : FS) : option File * option File :=
  (fs !! input_labels args, truthy (brain_mask args) ≫= (fs !!.)).

Ltac unfold_M :=
  unfold prepare, main, assert_inputs_exist, assert_outputs_exist, load_brain_mask,
    load_image, exists_file, open_w, json_dump, raise, ret,
    mbind, mret, M_bind, M_ret, bind, ret in *.

(** ** Example data *)

Definition identity_affine : list (list Qc) :=
  [[1; 0; 0; 0]; [0; 1; 0; 0]; [0; 0; 1; 0]; [0; 0; 0; 1]]%Qc.

Definition unit_header : Header :=
  {| get_zooms := [1; 1; 1]%Qc; get_best_affine := identity_affine |}.

(** A header with spacing (2, 2, 2), as in scenario 4. *)
Definition coarse_header : Header :=
  {| get_zooms := [Qc_of_Z 2; Qc_of_Z 2; Qc_of_Z 2];
     get_best_affine := identity_affine |}.

Definition example_labels : Image :=
  {| image_data := [1; 1; 0; 2; 0; 1]; image_header := unit_header |}.

Definition ones_mask : Image :=
  {| image_data := [1; 1; 1; 1; 0; 0]; image_header := unit_header |}.

Definition zero_mask : Image :=
  {| image_data := [0; 0; 0; 0; 0; 0]; image_header := unit_header |}.

Definition coarse_mask : Image :=
  {| image_data := [1; 1; 1; 1; 0; 0]; image_header := coarse_header |}.

(** A 10x10x10 label volume of background only, as in scenario 1. *)
Definition background_labels : Image :=
  {| image_data := replicate 1000 0; image_header := unit_header |}.

Definition example_fs : FS :=
  <["labels.nii.gz" := ImageFile example_labels]>
    (<["mask.nii.gz" := ImageFile ones_mask]>
       (<["zero_mask.nii.gz" := ImageFile zero_mask]>
          (<["coarse_mask.nii.gz" := ImageFile coarse_mask]>
             (<["background.nii.gz" := ImageFile background_labels]> ∅)))).

Definition example_args (mask : option string) (force : bool) : Namespace :=
  {| input_labels := "labels.nii.gz"; output_json := "volumes.json";
     brain_mask := mask; overwrite := force |}.

(** The same arguments with overwriting requested. *)
Definition with_overwrite (args : Namespace) : Namespace :=
  {| input_labels := input_labels args; output_json := output_json args;
     brain_mask := brain_mask args; overwrite := true |}.

(** A mask whose voxel values are all multiplied by [k], such as the
    0/255 form of a 0/1 mask. *)
Definition scale_mask (k : Z) (mask : list Z) : list Z := (λ v, k * v) <$> mask.

(** ** The volume in IEEE 754 arithmetic *)

(** The expression [np.sum(label_data == label_id) * np.prod(zooms)] with
    the number formats of the script: the spacings of [get_zooms()] are
    binary32 numbers and [np.prod] multiplies them in binary32, from left
    to right; the integer count and the binary32 spacing product are both
    converted to binary64, and their product is a binary64 number.  A
    [spec_float] is a sign, a mantissa and an exponent, and the
    operations round to nearest, ties to even. *)
Definition float32_mul : spec_float → spec_float → spec_float := SFmul 24 128.

Definition float64_mul : spec_float → spec_float → spec_float := SFmul 53 1024.

Definition int_to_float64 (n : Z) : spec_float := binary_normalize 53 1024 n 0 false.

Definition np_prod_float32 (zs : list spec_float) : spec_float :=
  foldl float32_mul (SFone 24 128) zs.

Definition label_volume_ieee (label_data : list Z) (zooms : list spec_float)
    (label_id : Z) : spec_float :=
  float64_mul (int_to_float64 (np_sum_bool (np_eq label_data label_id)))
    (np_prod_float32 zooms).

(** A binary32 number that is strictly positive. *)
Definition positive_float32 (x : spec_float) : bool :=
  valid_binary 24 128 x && SFltb (S754_zero false) x.

(** The spacing 2^-60, about 8.7e-19. *)
Definition tiny_spacing : spec_float := S754_finite false 8388608 (-83).

(** ** Array operations: basic facts *)

Section arrays.
Implicit Types (a : list Z) (x : Z).

Lemma np_select_ne a x : np_select a (np_ne a x) = filter (λ v, v ≠ x) a.
Proof.
  induction a as [|v a IH]; [done|].
  cbn [np_ne fmap list_fmap np_select]. rewrite filter_cons.
  fold (np_ne a x). rewrite IH.
  destruct (decide (v ≠ x)) as [Hv|Hv].
  - by rewrite bool_decide_eq_true_2.
  - by rewrite bool_decide_eq_false_2.
Qed.

Lemma foldl_add_acc (l : list Z) (acc : Z) : foldl Z.add acc l = acc + foldl Z.add 0 l.
Proof.
  revert acc. induction l as [|v l IH]; intros acc; cbn [foldl]; [lia|].
  rewrite (IH (acc + v)), (IH (0 + v)). lia.
Qed.

Lemma np_sum_cons x a : np_sum (x :: a) = x + np_sum a.
Proof. unfold np_sum. simpl. apply foldl_add_acc. Qed.

Lemma np_sum_bool_eq a x : np_sum_bool (np_eq a x) = voxel_count a x.
Proof.
  unfold np_sum_bool, np_eq, voxel_count.
  induction a as [|v a IH]; [done|].
  rewrite !fmap_cons, np_sum_cons, IH, filter_cons.
  destruct (decide (v = x)) as [Hv|Hv].
  - rewrite bool_decide_eq_true_2 by done. simpl. lia.
  - rewrite bool_decide_eq_false_2 by done. simpl. lia.
Qed.


Lemma np_unique_perm a : np_unique a ≡ₚ remove_dups a.
Proof. apply merge_sort_Permutation. Qed.

Lemma elem_of_np_unique a x : x ∈ np_unique a ↔ x ∈ a.
Proof. by rewrite np_unique_perm, elem_of_remove_dups. Qed.

Lemma NoDup_np_unique a : NoDup (np_unique a).
Proof. rewrite np_unique_perm. apply NoDup_remove_dups. Qed.

Lemma Sorted_np_unique a : Sorted Z.le (np_unique a).
Proof. apply (Sorted_merge_sort Z.le). Qed.

Lemma labels_id_perm a : labels_id a ≡ₚ remove_dups (filter (λ v, v ≠ 0) a).
Proof. unfold labels_id. by rewrite np_select_ne, np_unique_perm. Qed.

Lemma elem_of_labels_id a x : x ∈ labels_id a ↔ x ∈ a ∧ x ≠ 0.
Proof.
  rewrite labels_id_perm, elem_of_remove_dups, list_elem_of_filter. tauto.
Qed.

Lemma NoDup_labels_id a : NoDup (labels_id a).
Proof. apply NoDup_np_unique. Qed.

Lemma voxel_count_pos a x : x ∈ a → 1 ≤ voxel_count a x.
Proof.
  intros Hx. unfold voxel_count.
  assert (Hin : x ∈ filter (λ v, v = x) a) by (by apply list_elem_of_filter).
  destruct (filter (λ v, v = x) a); [by apply not_elem_of_nil in Hin|].
  simpl. lia.
Qed.

End arrays.

(** ** The loop *)

Section loop.
Variables (label_data : list Z) (zooms : list Qc) (mask : option (list Z)).

Local Abbreviation body := (loop_body label_data zooms mask).
Local Abbreviation fields := (set_fields label_data zooms mask).

Lemma loop_body_insert (volumes : Report) (lid : Z) :
  body volumes lid = <[lid := fields lid (default ∅ (volumes !! lid))]> volumes.
Proof.
  unfold loop_body, set_fields. apply map_eq. intros j.
  destruct (decide (lid = j)) as [<-|Hj].
  - rewrite lookup_insert_eq.
    destruct (decide (volumes !! lid = None)) as [Hid|Hid].
    + rewrite Hid. simpl.
      destruct mask; rewrite !lookup_alter_eq, lookup_insert_eq; done.
    + destruct (volumes !! lid) as [d|] eqn:Hd; [|done]. simpl.
      destruct mask; rewrite !lookup_alter_eq, Hd; done.
  - rewrite lookup_insert_ne by done.
    destruct (decide (volumes !! lid = None)), mask;
      rewrite ?lookup_alter_ne, ?lookup_insert_ne by done; done.
Qed.

Lemma fields_idemp lid (d : gmap string float64) : fields lid (fields lid d) = fields lid d.
Proof.
  unfold set_fields. apply map_eq. intros k.
  destruct mask; rewrite !lookup_insert; repeat case_decide; done.
Qed.

Lemma lookup_foldl_body (ids : list Z) (volumes : Report) (lid : Z) :
  foldl body volumes ids !! lid =
    if decide (lid ∈ ids) then Some (fields lid (default ∅ (volumes !! lid)))
    else volumes !! lid.
Proof.
  revert volumes. induction ids as [|i ids IH]; intros volumes; cbn [foldl].
  - case_decide as Hin; [|done]. by apply not_elem_of_nil in Hin.
  - rewrite IH, loop_body_insert.
    destruct (decide (lid = i)) as [->|Hne].
    + rewrite lookup_insert_eq.
      rewrite (decide_True (P := i ∈ i :: ids)) by apply list_elem_of_here.
      case_decide; [|done]. cbn [default from_option id]. by rewrite fields_idemp.
    + rewrite lookup_insert_ne by done.
      destruct (decide (lid ∈ ids)) as [Hin|Hin].
      * rewrite decide_True; [done|]. by apply list_elem_of_further.
      * rewrite decide_False; [done|]. rewrite elem_of_cons. tauto.
Qed.

(** The report holds, for each enumerated label and for no other key,
    the fields that the loop sets. *)
Lemma lookup_compute_volumes (lid : Z) :
  compute_volumes label_data zooms mask !! lid =
    if decide (lid ∈ label_data ∧ lid ≠ 0) then Some (fields lid ∅) else None.
Proof.
  unfold compute_volumes. rewrite lookup_foldl_body, lookup_empty. cbn [default from_option].
  destruct (decide (lid ∈ labels_id label_data)) as [Hin|Hin];
    rewrite elem_of_labels_id in Hin.
  - by rewrite decide_True.
  - by rewrite decide_False.
Qed.

Lemma fields_volume lid (d : gmap string float64) :
  fields lid d !! "volume" = Some (Finite (label_volume label_data zooms lid)).
Proof.
  unfold set_fields. destruct mask.
  - rewrite lookup_insert_ne by done. apply lookup_insert_eq.
  - apply lookup_insert_eq.
Qed.

End loop.

(** ** Properties of the report *)

Lemma np_prod_three (sx sy sz : Qc) : np_prod [sx; sy; sz] = (sx * sy * sz)%Qc.
Proof. unfold np_prod. simpl. ring. Qed.

Lemma label_volume_count (label_data : list Z) (zooms : list Qc) (lid : Z) :
  label_volume label_data zooms lid =
    (Qc_of_Z (voxel_count label_data lid) * np_prod zooms)%Qc.
Proof. unfold label_volume. by rewrite np_sum_bool_eq. Qed.

Lemma compute_volumes_Some (label_data : list Z) (zooms : list Qc)
    (mask : option (list Z)) (lid : Z) (entry : gmap string float64) :
  compute_volumes label_data zooms mask !! lid = Some entry →
  lid ∈ label_data ∧ lid ≠ 0 ∧ entry = set_fields label_data zooms mask lid ∅.
Proof.
  rewrite lookup_compute_volumes. case_decide as Hin; [|done].
  intros [= <-]. tauto.
Qed.

(** Scenario 2 of the specification: 100 voxels of label 1, 50 voxels of
    label 2 and unit spacing. *)
Example scenario_two_labels :
  let report := compute_volumes (replicate 100 1 ++ replicate 50 2 ++ replicate 850 0)
                  [1%Qc; 1%Qc; 1%Qc] None in
  report !! 1 = Some {["volume" := Finite (Qc_of_Z 100)]}
  ∧ report !! 2 = Some {["volume" := Finite (Qc_of_Z 50)]}
  ∧ dom report = {[1; 2]}.
Proof.
  cbv zeta.
  assert (Hvol : ∀ lid n, voxel_count (replicate 100 1 ++ replicate 50 2 ++ replicate 850 0) lid = n →
            set_fields (replicate 100 1 ++ replicate 50 2 ++ replicate 850 0)
              [1%Qc; 1%Qc; 1%Qc] None lid ∅ = {["volume" := Finite (Qc_of_Z n)]}).
  { intros lid n Hn. unfold set_fields.
    rewrite label_volume_count, Hn, np_prod_three, insert_empty.
    do 2 f_equal. ring. }
  assert (Hdom : ∀ x, x ∈ replicate 100 1 ++ replicate 50 2 ++ replicate 850 0 ∧ x ≠ 0
            ↔ x = 1 ∨ x = 2).
  { intros x. rewrite !elem_of_app, !elem_of_replicate. lia. }
  rewrite !lookup_compute_volumes. split_and!.
  - rewrite decide_True by (apply Hdom; auto). f_equal. by apply Hvol.
  - rewrite decide_True by (apply Hdom; auto). f_equal. by apply Hvol.
  - apply set_eq. intros x. rewrite elem_of_dom, lookup_compute_volumes.
    rewrite elem_of_union, !elem_of_singleton, <- Hdom.
    case_decide; [by eauto|]. split; [by intros []|done].
Qed.

(** C1.  For every label id of the report, the [volume] field is the
    number of voxels of the label volume equal to that id, multiplied by
    the product of the voxel spacings; for the three spacings of a 3D
    volume that product is [spacing_x * spacing_y * spacing_z]. *)
Theorem volume_is_count_times_spacing (label_data : list Z) (zooms : list Qc)
    (mask : option (list Z)) (lid : Z) (entry : gmap string float64) :
  compute_volumes label_data zooms mask !! lid = Some entry →
  entry !! "volume" =
    Some (Finite (Qc_of_Z (voxel_count label_data lid) * np_prod zooms)%Qc)
  ∧ ∀ sx sy sz : Qc, zooms = [sx; sy; sz] →
      entry !! "volume" =
        Some (Finite (Qc_of_Z (voxel_count label_data lid) * (sx * sy * sz))%Qc).
Proof.
  intros (_ & _ & ->)%compute_volumes_Some.
  rewrite fields_volume, label_volume_count. split; [done|].
  intros sx sy sz ->. by rewrite np_prod_three.
Qed.

Lemma volume_is_count_times_spacing_witness :
  let label_data := [1; 0; 2; 1; 1] in
  let zooms := [Qc_of_Z 1 / Qc_of_Z 2; Qc_of_Z 2; Qc_of_Z 3]%Qc in
  let entry := {["volume" := Finite (label_volume label_data zooms 1)]} in
  compute_volumes label_data zooms None !! 1 = Some entry
  ∧ entry !! "volume" = Some (Finite (Qc_of_Z (voxel_count label_data 1) * np_prod zooms)%Qc).
Proof.
  cbv zeta. split; [vm_compute; reflexivity|].
  refine (proj1 (volume_is_count_times_spacing [1; 0; 2; 1; 1]
                   [Qc_of_Z 1 / Qc_of_Z 2; Qc_of_Z 2; Qc_of_Z 3]%Qc None 1 _ _)).
  vm_compute. reflexivity.
Defined.

Lemma dom_compute_volumes (label_data : list Z) (zooms : list Qc) (mask : option (list Z)) :
  dom (compute_volumes label_data zooms mask) = distinct_nonzero label_data.
Proof.
  apply set_eq. intros x.
  rewrite elem_of_dom, lookup_compute_volumes. unfold distinct_nonzero.
  rewrite elem_of_list_to_set, list_elem_of_filter.
  case_decide as Hx.
  - split; [tauto|by eauto].
  - split; [by intros []|tauto].
Qed.

(** C5.  The keys of the report are exactly the distinct non-zero values
    of the label volume: there is no entry for label 0, there are as many
    entries as distinct non-zero ids, and a label volume of zeros gives
    the empty report. *)
Theorem report_keys (label_data : list Z) (zooms : list Qc) (mask : option (list Z)) :
  let report := compute_volumes label_data zooms mask in
  dom report = distinct_nonzero label_data
  ∧ report !! 0 = None
  ∧ size report = size (distinct_nonzero label_data)
  ∧ size report = length (remove_dups (filter (λ v, v ≠ 0) label_data))
  ∧ (Forall (λ v, v = 0) label_data → report = ∅).
Proof.
  cbv zeta. split_and!.
  - apply dom_compute_volumes.
  - rewrite lookup_compute_volumes. case_decide as H0; [|done]. by destruct H0.
  - by rewrite <- size_dom, dom_compute_volumes.
  - rewrite <- size_dom, dom_compute_volumes. unfold distinct_nonzero.
    rewrite <- (size_list_to_set (C := gset Z)) by apply NoDup_remove_dups.
    f_equal. apply set_eq. intros x.
    by rewrite !elem_of_list_to_set, elem_of_remove_dups.
  - intros Hzero. apply map_eq. intros x.
    rewrite lookup_compute_volumes, lookup_empty.
    case_decide as Hx; [|done]. destruct Hx as [Hx Hx0].
    rewrite list.Forall_forall in Hzero. by apply Hzero in Hx.
Qed.

Lemma report_keys_witness :
  Forall (λ v, v = 0) (replicate 1000 0)
  ∧ compute_volumes (replicate 1000 0) [1%Qc; 1%Qc; 1%Qc] None = ∅.
Proof.
  assert (H : Forall (λ v, v = 0) (replicate 1000 0))
    by (apply Forall_replicate; reflexivity).
  split; [exact H|].
  exact (proj2 (proj2 (proj2 (proj2
           (report_keys (replicate 1000 0) [1%Qc; 1%Qc; 1%Qc] None)))) H).
Defined.

(** Positive spacings do not make the volume positive: three spacings
    of 2^-60 are positive binary32 numbers, their binary32 product
    underflows to zero, and the volume of a label that occurs in a voxel
    is zero. *)
Lemma tiny_spacings_give_zero_volume :
  positive_float32 tiny_spacing = true
  ∧ 1 ≤ voxel_count [1; 0] 1
  ∧ np_prod_float32 [tiny_spacing; tiny_spacing; tiny_spacing] = S754_zero false
  ∧ label_volume_ieee [1; 0] [tiny_spacing; tiny_spacing; tiny_spacing] 1
    = S754_zero false
  ∧ SFltb (S754_zero false)
      (label_volume_ieee [1; 0] [tiny_spacing; tiny_spacing; tiny_spacing] 1) = false.
Proof. repeat split; vm_compute; congruence. Qed.

(** C10, as the code has it.  Every label of the report occurs in at
    least one voxel, and its [volume] is strictly positive whenever the
    product of the spacings that [np.prod] returns is strictly
    positive. *)
Theorem volumes_positive (label_data : list Z) (zooms : list Qc)
    (mask : option (list Z)) (lid : Z) (entry : gmap string float64) :
  (0 < np_prod zooms)%Qc →
  compute_volumes label_data zooms mask !! lid = Some entry →
  1 ≤ voxel_count label_data lid
  ∧ ∃ q : Qc, entry !! "volume" = Some (Finite q) ∧ (0 < q)%Qc.
Proof.
  intros Hz (Hin & _ & ->)%compute_volumes_Some.
  pose proof (voxel_count_pos _ _ Hin) as Hc.
  split; [done|]. eexists. split; [apply fields_volume|].
  rewrite label_volume_count. apply Qcmult_pos_pos; [|done].
  rewrite <- Z2Qc_inj_0. apply (proj1 (Z2Qc_inj_lt 0 _)). lia.
Qed.

Lemma volumes_positive_witness :
  let label_data := [3; 0; 3; 7] in
  let zooms := [Qc_of_Z 2; Qc_of_Z 2; Qc_of_Z 3] in
  let entry := {["volume" := Finite (label_volume label_data zooms 3)]} in
  (0 < np_prod zooms)%Qc
  ∧ compute_volumes label_data zooms None !! 3 = Some entry
  ∧ 1 ≤ voxel_count label_data 3
  ∧ ∃ q : Qc, entry !! "volume" = Some (Finite q) ∧ (0 < q)%Qc.
Proof.
  cbv zeta.
  assert (Hz : (0 < np_prod [Qc_of_Z 2; Qc_of_Z 2; Qc_of_Z 3])%Qc)
    by (vm_compute; reflexivity).
  assert (He : compute_volumes [3; 0; 3; 7] [Qc_of_Z 2; Qc_of_Z 2; Qc_of_Z 3] None !! 3
               = Some {["volume" := Finite (label_volume [3; 0; 3; 7]
                                             [Qc_of_Z 2; Qc_of_Z 2; Qc_of_Z 3] 3)]})
    by (vm_compute; reflexivity).
  split; [exact Hz|]. split; [exact He|].
  exact (volumes_positive _ _ _ _ _ Hz He).
Defined.

(** ** Normalisation by the brain mask *)

Lemma fields_volume_normalized (label_data : list Z) (zooms : list Qc)
    (mask_data : list Z) (lid : Z) (d : gmap string float64) :
  set_fields label_data zooms (Some mask_data) lid d !! "volume_normalized" =
    Some (true_divide (label_volume label_data zooms lid) (np_sum mask_data)).
Proof. unfold set_fields. apply lookup_insert_eq. Qed.




(** Scenario 3 of the specification: 100 voxels of label 1 and a binary
    mask with 500 in-brain voxels give 100/500 = 1/5. *)
Example scenario_normalized :
  compute_volumes (replicate 100 1 ++ replicate 50 2 ++ replicate 850 0)
    [1%Qc; 1%Qc; 1%Qc] (Some (replicate 500 1 ++ replicate 500 0)) !! 1
  ≫= (.!! "volume_normalized")
  = Some (Finite (Qc_of_Z 1 / Qc_of_Z 5)).
Proof.
  rewrite lookup_compute_volumes. rewrite decide_True.
  2:{ split; [|done]. apply elem_of_app. left. by apply elem_of_replicate. }
  cbn [mbind option_bind]. rewrite fields_volume_normalized.
  vm_compute. do 2 f_equal. by apply Qc_is_canon.
Qed.

(** ** The sum of the volumes *)

Lemma float64_add_swap (y a b : float64) :
  float64_add (float64_add y a) b = float64_add (float64_add y b) a.
Proof. destruct y, a, b; simpl; try done. f_equal. ring. Qed.

Lemma float64_add_finite (y : float64) (a b : Qc) :
  float64_add (float64_add y (Finite a)) (Finite b) = float64_add y (Finite (a + b)).
Proof. destruct y; simpl; try done. f_equal. ring. Qed.

Lemma total_volume_insert (volumes : Report) (lid : Z) (entry : gmap string float64) :
  volumes !! lid = None →
  total_volume (<[lid := entry]> volumes) =
    float64_add (total_volume volumes) (volume_of entry).
Proof.
  intros Hnone. unfold total_volume.
  rewrite map_fold_insert_L; [done| |done].
  intros. apply float64_add_swap.
Qed.

Lemma Zsum_add (f g : Z → Z) (ids : list Z) :
  Zsum (λ i, f i + g i) ids = Zsum f ids + Zsum g ids.
Proof. induction ids as [|i ids IH]; simpl; lia. Qed.

Lemma Zsum_ext (f g : Z → Z) (ids : list Z) :
  (∀ i, f i = g i) → Zsum f ids = Zsum g ids.
Proof. intros Hfg. induction ids as [|i ids IH]; simpl; [done|]. by rewrite Hfg, IH. Qed.

Lemma Zsum_indicator (x : Z) (ids : list Z) :
  NoDup ids →
  Zsum (λ i, Z.b2z (bool_decide (x = i))) ids = Z.b2z (bool_decide (x ∈ ids)).
Proof.
  induction 1 as [|i ids Hi _ IH]; simpl; [done|]. rewrite IH.
  destruct (decide (x = i)) as [->|Hne].
  - rewrite (bool_decide_eq_true_2 (i = i)) by done.
    rewrite (bool_decide_eq_false_2 (i ∈ ids)) by done.
    rewrite bool_decide_eq_true_2; [done|]. apply list_elem_of_here.
  - rewrite (bool_decide_eq_false_2 (x = i)) by done.
    rewrite Z.add_0_l. f_equal. apply bool_decide_ext. rewrite elem_of_cons. tauto.
Qed.

Lemma voxel_count_cons (x : Z) (a : list Z) (i : Z) :
  voxel_count (x :: a) i = Z.b2z (bool_decide (x = i)) + voxel_count a i.
Proof.
  unfold voxel_count. rewrite filter_cons.
  destruct (decide (x = i)) as [Hx|Hx].
  - rewrite bool_decide_eq_true_2 by done. simpl. lia.
  - rewrite bool_decide_eq_false_2 by done. simpl. lia.
Qed.

(** Every non-zero voxel is counted for exactly one label. *)
Lemma Zsum_voxel_count (ids a : list Z) :
  NoDup ids → 0 ∉ ids → (∀ x, x ∈ a → x ≠ 0 → x ∈ ids) →
  Zsum (voxel_count a) ids = count_nonzero a.
Proof.
  intros Hnd H0. induction a as [|x a IH]; intros Hall.
  - unfold count_nonzero. simpl. clear. induction ids; simpl; [done|].
    unfold voxel_count at 1. simpl. lia.
  - rewrite (Zsum_ext _ _ ids (voxel_count_cons x a)).
    rewrite Zsum_add, Zsum_indicator by done. rewrite IH.
    2:{ intros y Hy. apply Hall. by apply list_elem_of_further. }
    unfold count_nonzero. rewrite filter_cons.
    destruct (decide (x ≠ 0)) as [Hx|Hx].
    + rewrite bool_decide_eq_true_2; [simpl; lia|].
      apply Hall; [apply list_elem_of_here|done].
    + assert (x = 0) as -> by lia.
      rewrite bool_decide_eq_false_2 by done. simpl. lia.
Qed.

Lemma Qcsum_label_volume (label_data : list Z) (zooms : list Qc) (ids : list Z) :
  Qcsum (label_volume label_data zooms) ids =
    (Qc_of_Z (Zsum (voxel_count label_data) ids) * np_prod zooms)%Qc.
Proof.
  induction ids as [|i ids IH]; simpl.
  - rewrite Z2Qc_inj_0. ring.
  - rewrite IH, label_volume_count, Z2Qc_inj_add. ring.
Qed.

Section total.
Variables (label_data : list Z) (zooms : list Qc) (mask : option (list Z)).

Lemma volume_of_fields (lid : Z) (d : gmap string float64) :
  volume_of (set_fields label_data zooms mask lid d) =
    Finite (label_volume label_data zooms lid).
Proof. unfold volume_of. by rewrite fields_volume. Qed.

Lemma total_volume_foldl (ids : list Z) (volumes : Report) :
  NoDup ids → (∀ i, i ∈ ids → volumes !! i = None) →
  total_volume (foldl (loop_body label_data zooms mask) volumes ids) =
    float64_add (total_volume volumes)
      (Finite (Qcsum (label_volume label_data zooms) ids)).
Proof.
  intros Hnd. revert volumes.
  induction Hnd as [|i ids Hi Hnd IH]; intros volumes Hfresh; simpl.
  - destruct (total_volume volumes); simpl; try done. f_equal. ring.
  - rewrite loop_body_insert, Hfresh by apply list_elem_of_here.
    rewrite IH.
    + rewrite total_volume_insert by (apply Hfresh, list_elem_of_here).
      by rewrite volume_of_fields, float64_add_finite.
    + intros j Hj. rewrite lookup_insert_ne by (by intros ->).
      by apply Hfresh, list_elem_of_further.
Qed.

End total.

Lemma total_volume_compute_volumes (label_data : list Z) (zooms : list Qc)
    (mask : option (list Z)) :
  total_volume (compute_volumes label_data zooms mask) =
    Finite (Qc_of_Z (count_nonzero label_data) * np_prod zooms)%Qc.
Proof.
  unfold compute_volumes.
  rewrite total_volume_foldl; [|apply NoDup_labels_id|intros; apply lookup_empty].
  unfold total_volume at 1. rewrite map_fold_empty. simpl.
  rewrite Qcsum_label_volume, Zsum_voxel_count.
  - f_equal. ring.
  - apply NoDup_labels_id.
  - rewrite elem_of_labels_id. by intros [_ ?].
  - intros x Hx Hx0. by apply elem_of_labels_id.
Qed.

(** C7.  The volumes of the report add up to the number of non-zero
    voxels of the label volume times the volume of one voxel,
    [spacing_x * spacing_y * spacing_z].  Numbers are exact here, so the
    equality is too. *)
Theorem total_volume_is_nonzero_count (label_data : list Z) (sx sy sz : Qc)
    (mask : option (list Z)) :
  total_volume (compute_volumes label_data [sx; sy; sz] mask) =
    Finite (Qc_of_Z (count_nonzero label_data) * (sx * sy * sz))%Qc.
Proof.
  by rewrite total_volume_compute_volumes, np_prod_three.
Qed.

(** ** Runs of [main] *)

Lemma main_prepare (args : Namespace) (fs : FS) :
  main args fs =
    match prepare args fs with
    | (Ok volumes, fs1) =>
        (Ok tt, <[output_json args := JsonFile volumes]>
                  (<[output_json args := EmptyFile]> fs1))
    | (Raise e, fs1) => (Raise e, fs1)
    end.
Proof.
  unfold_M. repeat (case_match; simplify_eq/=); done.
Qed.

Lemma prepare_readonly (args : Namespace) (fs : FS) : (prepare args fs).2 = fs.
Proof.
  unfold_M. repeat (case_match; simplify_eq/=); done.
Qed.

Lemma main_Ok_inv (args : Namespace) (fs fs' : FS) :
  main args fs = (Ok tt, fs') →
  ∃ volumes, prepare args fs = (Ok volumes, fs)
    ∧ fs' = <[output_json args := JsonFile volumes]> fs.
Proof.
  rewrite main_prepare. pose proof (prepare_readonly args fs) as Hro.
  destruct (prepare args fs) as [[volumes|e] fs1]; simpl in Hro; subst fs1; [|done].
  intros [= <-]. exists volumes. by rewrite insert_insert_eq.
Qed.

Lemma prepare_Ok_inv (args : Namespace) (fs fs1 : FS) (volumes : Report) :
  prepare args fs = (Ok volumes, fs1) →
  ∃ label, fs !! input_labels args = Some (ImageFile label)
    ∧ match truthy (brain_mask args) with
      | None =>
          volumes = compute_volumes (image_data label) (get_zooms (image_header label)) None
      | Some p =>
          ∃ m, fs !! p = Some (ImageFile m)
            ∧ different_space (image_header label) (image_header m) = false
            ∧ volumes = compute_volumes (image_data label)
                          (get_zooms (image_header label)) (Some (image_data m))
      end.
Proof.
  unfold_M. intros Hrun.
  repeat (case_match; simplify_eq/=); eauto 10.
Qed.

Lemma bind_run {A B} (m : M A) (k : A → M B) (fs : FS) :
  (x ← m; k x) fs =
    match m fs with
    | (Ok a, fs') => k a fs'
    | (Raise e, fs') => (Raise e, fs')
    end.
Proof. reflexivity. Qed.

Lemma exists_file_Some (path : string) (fs : FS) (f : File) :
  fs !! path = Some f → exists_file path fs = (Ok true, fs).
Proof.
  intros Hf. unfold exists_file. rewrite Hf.
  rewrite bool_decide_eq_true_2; [done|]. by eexists.
Qed.

Lemma assert_inputs_exist_ok (required : string) (optional : option string)
    (fs : FS) (f : File) :
  fs !! required = Some f →
  (∀ p, optional = Some p → is_Some (fs !! p)) →
  assert_inputs_exist required optional fs = (Ok tt, fs).
Proof.
  intros Hf Hopt. unfold assert_inputs_exist.
  rewrite bind_run, (exists_file_Some _ _ f) by done. simpl.
  destruct optional as [p|]; [|done].
  destruct (Hopt p eq_refl) as [g Hg].
  by rewrite bind_run, (exists_file_Some _ _ g).
Qed.

Lemma assert_outputs_exist_ok (args : Namespace) (fs : FS) :
  fs !! output_json args = None ∨ overwrite args = true →
  assert_outputs_exist args (output_json args) fs = (Ok tt, fs).
Proof.
  intros Hout. unfold assert_outputs_exist, exists_file. rewrite bind_run.
  destruct Hout as [Hnone | ->].
  - rewrite Hnone. rewrite bool_decide_eq_false_2; [done|]. by intros [].
  - by rewrite andb_false_r.
Qed.

Lemma load_image_ok (path : string) (fs : FS) (img : Image) :
  fs !! path = Some (ImageFile img) → load_image path fs = (Ok img, fs).
Proof. intros Himg. unfold load_image. by rewrite Himg. Qed.

Section runs.
Variables (args : Namespace) (fs : FS) (label : Image).
Hypothesis Hlabel : fs !! input_labels args = Some (ImageFile label).
Hypothesis Hout : fs !! output_json args = None ∨ overwrite args = true.

Lemma prepare_without_mask :
  brain_mask args = None →
  prepare args fs =
    (Ok (compute_volumes (image_data label) (get_zooms (image_header label)) None), fs).
Proof.
  intros Hnone. unfold prepare.
  rewrite bind_run, (assert_inputs_exist_ok _ _ _ _ Hlabel) by (by rewrite Hnone).
  rewrite bind_run, assert_outputs_exist_ok by done.
  rewrite bind_run, (load_image_ok _ _ _ Hlabel).
  unfold load_brain_mask. rewrite Hnone. done.
Qed.

Lemma prepare_with_mask (p : string) (m : Image) :
  brain_mask args = Some p → p ≠ EmptyString →
  fs !! p = Some (ImageFile m) →
  prepare args fs =
    if different_space (image_header label) (image_header m)
    then (Raise space_error, fs)
    else (Ok (compute_volumes (image_data label) (get_zooms (image_header label))
                (Some (image_data m))), fs).
Proof.
  intros Hp Hne Hm. unfold prepare.
  rewrite bind_run, (assert_inputs_exist_ok _ _ _ _ Hlabel).
  2:{ rewrite Hp. intros ? [= <-]. by eexists. }
  rewrite bind_run, assert_outputs_exist_ok by done.
  rewrite bind_run, (load_image_ok _ _ _ Hlabel).
  unfold load_brain_mask. rewrite Hp. simpl. rewrite decide_False by done.
  rewrite !bind_run, (load_image_ok _ _ _ Hm).
  by destruct (different_space _ _).
Qed.

Lemma main_without_mask :
  brain_mask args = None →
  main args fs =
    (Ok tt, <[output_json args :=
                JsonFile (compute_volumes (image_data label)
                            (get_zooms (image_header label)) None)]> fs).
Proof.
  intros Hnone. rewrite main_prepare, prepare_without_mask by done.
  by rewrite insert_insert_eq.
Qed.

Lemma main_with_mask (p : string) (m : Image) :
  brain_mask args = Some p → p ≠ EmptyString →
  fs !! p = Some (ImageFile m) →
  main args fs =
    if different_space (image_header label) (image_header m)
    then (Raise space_error, fs)
    else (Ok tt, <[output_json args :=
                     JsonFile (compute_volumes (image_data label)
                                 (get_zooms (image_header label))
                                 (Some (image_data m)))]> fs).
Proof.
  intros Hp Hne Hm. rewrite main_prepare, (prepare_with_mask p m) by done.
  destruct (different_space _ _); [done|]. by rewrite insert_insert_eq.
Qed.

End runs.

(** Scenario 1 of the specification: a label volume of background only
    gives the empty report, and no error. *)
Example scenario_background_only :
  main {| input_labels := "background.nii.gz"; output_json := "volumes.json";
          brain_mask := None; overwrite := false |} example_fs
  = (Ok tt, <["volumes.json" := JsonFile ∅]> example_fs).
Proof.
  rewrite (main_without_mask _ _ background_labels); [|reflexivity|by left|reflexivity].
  replace (compute_volumes (image_data background_labels)
             (get_zooms (image_header background_labels)) None)
    with (∅ : Report); [done|].
  symmetry. apply map_eq. intros lid.
  rewrite lookup_compute_volumes, lookup_empty.
  case_decide as Hlid; [|done]. destruct Hlid as [Hin Hne].
  by apply elem_of_replicate in Hin as [? _].
Qed.

(** ** The brain mask without in-brain voxel *)

Lemma count_nonzero_zero_sum (mask : list Z) : count_nonzero mask = 0 → np_sum mask = 0.
Proof.
  unfold count_nonzero. induction mask as [|v mask IH]; [done|].
  rewrite filter_cons, np_sum_cons. case_decide as Hv; simpl; [lia|].
  intros Hc. rewrite IH by done. lia.
Qed.

Lemma true_divide_zero (x : Qc) :
  is_finite (true_divide x 0) = false ∧ ((0 < x)%Qc → true_divide x 0 = PosInf).
Proof.
  unfold true_divide. rewrite decide_True by done.
  split; [by repeat case_decide|]. intros Hx. by rewrite decide_True.
Qed.

Lemma true_divide_zero_zero : true_divide 0 0 = NaN.
Proof. reflexivity. Qed.

(** With a brain mask of zeros the run does not stop: it writes a report
    whose normalised volumes are infinite. *)
Lemma zero_mask_run_completes :
  ∃ (fs' : FS) (report : Report),
    count_nonzero (image_data zero_mask) = 0
    ∧ main (example_args (Some "zero_mask.nii.gz") false) example_fs = (Ok tt, fs')
    ∧ fs' !! "volumes.json" = Some (JsonFile report)
    ∧ report !! 1 ≫= (.!! "volume_normalized") = Some PosInf.
Proof.
  eexists _, _. split; [reflexivity|].
  rewrite (main_with_mask _ _ example_labels) with (p := "zero_mask.nii.gz"%string) (m := zero_mask);
    [|reflexivity|by left|reflexivity|done|reflexivity].
  assert (Hsame : different_space (image_header example_labels) (image_header zero_mask) = false)
    by (vm_compute; reflexivity).
  rewrite Hsame. split; [reflexivity|].
  split; [apply lookup_insert_eq|].
  rewrite lookup_compute_volumes, decide_True.
  2:{ split; [apply list_elem_of_here|done]. }
  cbn [mbind option_bind]. rewrite fields_volume_normalized.
  vm_compute. reflexivity.
Qed.

(** C3, as the code has it.  A brain mask without in-brain voxel is no
    error: the run completes and writes the report, and every
    [volume_normalized] in it is a non-finite value, +infinity when the
    [volume] of the entry is positive and NaN when it is zero. *)
Theorem zero_mask_is_not_an_error (args : Namespace) (fs : FS) (p : string)
    (label m : Image) :
  brain_mask args = Some p → p ≠ EmptyString →
  fs !! input_labels args = Some (ImageFile label) →
  fs !! p = Some (ImageFile m) →
  fs !! output_json args = None ∨ overwrite args = true →
  different_space (image_header label) (image_header m) = false →
  count_nonzero (image_data m) = 0 →
  ∃ report : Report,
    main args fs = (Ok tt, <[output_json args := JsonFile report]> fs)
    ∧ ∀ (lid : Z) (entry : gmap string float64),
        report !! lid = Some entry →
        ∃ (vol : Qc) (x : float64),
          entry !! "volume" = Some (Finite vol)
          ∧ entry !! "volume_normalized" = Some x
          ∧ is_finite x = false
          ∧ ((0 < vol)%Qc → x = PosInf)
          ∧ (vol = 0%Qc → x = NaN).
Proof.
  intros Hp Hne Hlabel Hm Hout Hsame Hzero.
  eexists. rewrite (main_with_mask _ _ label Hlabel Hout p m) by done.
  rewrite Hsame. split; [reflexivity|].
  intros lid entry (Hin & _ & ->)%compute_volumes_Some.
  eexists _, _. rewrite fields_volume, fields_volume_normalized.
  split; [reflexivity|]. split; [reflexivity|].
  rewrite (count_nonzero_zero_sum _ Hzero).
  split; [apply true_divide_zero|]. split; [apply true_divide_zero|].
  intros ->. apply true_divide_zero_zero.
Qed.

Lemma zero_mask_is_not_an_error_witness :
  ∃ report : Report,
    main (example_args (Some "zero_mask.nii.gz") true) example_fs =
      (Ok tt, <["volumes.json" := JsonFile report]> example_fs)
    ∧ ∀ (lid : Z) (entry : gmap string float64),
        report !! lid = Some entry →
        ∃ (vol : Qc) (x : float64),
          entry !! "volume" = Some (Finite vol)
          ∧ entry !! "volume_normalized" = Some x
          ∧ is_finite x = false
          ∧ ((0 < vol)%Qc → x = PosInf)
          ∧ (vol = 0%Qc → x = NaN).
Proof.
  apply (zero_mask_is_not_an_error (example_args (Some "zero_mask.nii.gz") true)
           example_fs "zero_mask.nii.gz" example_labels zero_mask).
  - reflexivity.
  - discriminate.
  - reflexivity.
  - reflexivity.
  - right. reflexivity.
  - vm_compute. reflexivity.
  - reflexivity.
Defined.

(** ** The geometry check *)

Lemma different_space_true (lh mh : Header) :
  different_space lh mh = true ↔
    get_zooms lh ≠ get_zooms mh
    ∨ np_allclose (get_best_affine lh) (get_best_affine mh) = false.
Proof.
  unfold different_space.
  rewrite orb_true_iff, bool_decide_eq_true, negb_true_iff. tauto.
Qed.

Lemma different_space_false (lh mh : Header) :
  different_space lh mh = false ↔
    get_zooms lh = get_zooms mh
    ∧ np_allclose (get_best_affine lh) (get_best_affine mh) = true.
Proof.
  unfold different_space.
  rewrite orb_false_iff, bool_decide_eq_false, negb_false_iff.
  split; intros [H1 H2]; (split; [|done]).
  - by destruct (decide (get_zooms lh = get_zooms mh)).
  - by intros ?.
Qed.

(** Scenario 4 of the specification: a mask of spacing (2, 2, 2) for a
    label volume of spacing (1, 1, 1). *)
Example scenario_spacing_mismatch :
  main (example_args (Some "coarse_mask.nii.gz") false) example_fs =
    (Raise space_error, example_fs).
Proof.
  rewrite (main_with_mask _ _ example_labels) with (p := "coarse_mask.nii.gz"%string)
                                                   (m := coarse_mask);
    [|reflexivity|by left|reflexivity|done|reflexivity].
  assert (Hdiff : different_space (image_header example_labels)
                    (image_header coarse_mask) = true) by (vm_compute; reflexivity).
  by rewrite Hdiff.
Qed.

(** C4.  With a brain mask, the run stops with the error of line 62,
    before anything is computed or written, when the spacings of the two
    images differ or their affines are not close element by element; when
    the spacings are equal and the affines close, it does not, and the
    report is written. *)
Theorem geometry_check (args : Namespace) (fs : FS) (p : string) (label m : Image) :
  brain_mask args = Some p → p ≠ EmptyString →
  fs !! input_labels args = Some (ImageFile label) →
  fs !! p = Some (ImageFile m) →
  fs !! output_json args = None ∨ overwrite args = true →
  (get_zooms (image_header label) ≠ get_zooms (image_header m)
   ∨ np_allclose (get_best_affine (image_header label))
       (get_best_affine (image_header m)) = false →
   main args fs = (Raise space_error, fs))
  ∧ (get_zooms (image_header label) = get_zooms (image_header m)
     ∧ np_allclose (get_best_affine (image_header label))
         (get_best_affine (image_header m)) = true →
     ∃ report : Report,
       main args fs = (Ok tt, <[output_json args := JsonFile report]> fs)).
Proof.
  intros Hp Hne Hlabel Hm Hout.
  rewrite (main_with_mask _ _ label Hlabel Hout p m) by done. split.
  - intros Hdiff%different_space_true. by rewrite Hdiff.
  - intros Hsame%different_space_false. rewrite Hsame. by eexists.
Qed.

Lemma geometry_check_witness :
  (get_zooms unit_header ≠ get_zooms coarse_header
   ∨ np_allclose (get_best_affine unit_header) (get_best_affine coarse_header) = false)
  ∧ main (example_args (Some "coarse_mask.nii.gz") false) example_fs =
      (Raise space_error, example_fs)
  ∧ (get_zooms unit_header = get_zooms unit_header
     ∧ np_allclose (get_best_affine unit_header) (get_best_affine unit_header) = true)
  ∧ ∃ report : Report,
      main (example_args (Some "mask.nii.gz") false) example_fs =
        (Ok tt, <["volumes.json" := JsonFile report]> example_fs).
Proof.
  assert (Hdiff : get_zooms unit_header ≠ get_zooms coarse_header
                  ∨ np_allclose (get_best_affine unit_header)
                      (get_best_affine coarse_header) = false).
  { left. apply (bool_decide_eq_true_1 _). vm_compute. reflexivity. }
  assert (Hsame : get_zooms unit_header = get_zooms unit_header
                  ∧ np_allclose (get_best_affine unit_header)
                      (get_best_affine unit_header) = true).
  { split; [reflexivity|]. vm_compute. reflexivity. }
  split; [exact Hdiff|]. split.
  - apply (geometry_check (example_args (Some "coarse_mask.nii.gz") false) example_fs
             "coarse_mask.nii.gz" example_labels coarse_mask);
      [reflexivity|discriminate|reflexivity|reflexivity|by left|exact Hdiff].
  - split; [exact Hsame|].
    apply (geometry_check (example_args (Some "mask.nii.gz") false) example_fs
             "mask.nii.gz" example_labels ones_mask);
      [reflexivity|discriminate|reflexivity|reflexivity|by left|exact Hsame].
Defined.

(** No arguments make the run go on with a mask of another geometry:
    for the mask of spacing (2, 2, 2) and the label volume of spacing
    (1, 1, 1), no namespace that the parser can produce leads to a
    completed run. *)
Lemma no_arguments_tolerate_mismatch :
  ¬ ∃ (args : Namespace) (fs' : FS),
      input_labels args = "labels.nii.gz"%string
      ∧ brain_mask args = Some "coarse_mask.nii.gz"%string
      ∧ main args example_fs = (Ok tt, fs').
Proof.
  intros (args & fs' & Hin & Hmask & Hrun).
  apply main_Ok_inv in Hrun as (volumes & Hrun & _).
  apply prepare_Ok_inv in Hrun as (label & Hlabel & Hm).
  rewrite Hmask in Hm. cbn [truthy] in Hm. rewrite decide_False in Hm by done.
  destruct Hm as (m & Hfile & Hsame & _).
  rewrite Hin in Hlabel.
  assert (Hl : example_fs !! "labels.nii.gz" = Some (ImageFile example_labels))
    by reflexivity.
  assert (Hc : example_fs !! "coarse_mask.nii.gz" = Some (ImageFile coarse_mask))
    by reflexivity.
  assert (label = example_labels) as -> by congruence.
  assert (m = coarse_mask) as -> by congruence.
  vm_compute in Hsame. discriminate Hsame.
Qed.

(** C6, as the code has it.  The run has no mode in which a geometry
    mismatch is only a warning: whatever the arguments, a brain mask that
    is given and whose geometry differs stops the run with an error, and
    nothing is written. *)
Theorem mismatch_is_always_fatal (args : Namespace) (fs : FS) (p : string)
    (label m : Image) :
  brain_mask args = Some p → p ≠ EmptyString →
  fs !! input_labels args = Some (ImageFile label) →
  fs !! p = Some (ImageFile m) →
  different_space (image_header label) (image_header m) = true →
  ∃ e : Error, main args fs = (Raise e, fs).
Proof.
  intros Hp Hne Hlabel Hm Hdiff. rewrite main_prepare.
  pose proof (prepare_readonly args fs) as Hro.
  destruct (prepare args fs) as [[volumes|e] fs1] eqn:Hrun; simpl in Hro; subst fs1.
  - apply prepare_Ok_inv in Hrun as (label' & Hlabel' & Hmask).
    rewrite Hp in Hmask. simpl in Hmask. rewrite decide_False in Hmask by done.
    destruct Hmask as (m' & Hm' & Hsame & _). congruence.
  - by exists e.
Qed.

Lemma mismatch_is_always_fatal_witness :
  different_space (image_header example_labels) (image_header coarse_mask) = true
  ∧ ∃ e : Error,
      main (example_args (Some "coarse_mask.nii.gz") true) example_fs = (Raise e, example_fs).
Proof.
  assert (Hdiff : different_space (image_header example_labels)
                    (image_header coarse_mask) = true) by (vm_compute; reflexivity).
  split; [exact Hdiff|].
  apply (mismatch_is_always_fatal (example_args (Some "coarse_mask.nii.gz") true)
           example_fs "coarse_mask.nii.gz" example_labels coarse_mask);
    [reflexivity|discriminate|reflexivity|reflexivity|exact Hdiff].
Defined.

(** ** Determinism and error paths *)

(** C8.  The report is a function of the inputs alone: two runs that read
    the same label image and the same brain mask (or none), whatever else
    differs between them, write the same report. *)
Theorem main_deterministic (args1 args2 : Namespace) (fs1 fs2 fs1' fs2' : FS) :
  inputs_of args1 fs1 = inputs_of args2 fs2 →
  main args1 fs1 = (Ok tt, fs1') →
  main args2 fs2 = (Ok tt, fs2') →
  ∃ report : Report,
    fs1' !! output_json args1 = Some (JsonFile report)
    ∧ fs2' !! output_json args2 = Some (JsonFile report).
Proof.
  unfold inputs_of. intros [= Hlabel Hmask].
  intros (v1 & Hrun1 & ->)%main_Ok_inv (v2 & Hrun2 & ->)%main_Ok_inv.
  apply prepare_Ok_inv in Hrun1 as (label1 & Hl1 & Hm1).
  apply prepare_Ok_inv in Hrun2 as (label2 & Hl2 & Hm2).
  assert (label1 = label2) as <- by congruence.
  exists v1. rewrite !lookup_insert_eq. split; [done|]. do 2 f_equal.
  destruct (truthy (brain_mask args1)) as [p1|], (truthy (brain_mask args2)) as [p2|];
    simpl in Hmask.
  - destruct Hm1 as (m1 & Hp1 & _ & ->), Hm2 as (m2 & Hp2 & _ & ->). congruence.
  - destruct Hm1 as (m1 & Hp1 & _). congruence.
  - destruct Hm2 as (m2 & Hp2 & _). congruence.
  - congruence.
Qed.

Lemma main_deterministic_witness :
  let args1 := example_args (Some "mask.nii.gz") false in
  let args2 := {| input_labels := "labels.nii.gz"; output_json := "second.json";
                  brain_mask := Some "mask.nii.gz"; overwrite := true |} in
  let fs2 := <["second.json" := EmptyFile]> example_fs in
  let report := compute_volumes (image_data example_labels) [1; 1; 1]%Qc
                  (Some (image_data ones_mask)) in
  inputs_of args1 example_fs = inputs_of args2 fs2
  ∧ main args1 example_fs = (Ok tt, <["volumes.json" := JsonFile report]> example_fs)
  ∧ main args2 fs2 = (Ok tt, <["second.json" := JsonFile report]> fs2)
  ∧ ∃ report' : Report,
      <["volumes.json" := JsonFile report]> example_fs !! output_json args1
        = Some (JsonFile report')
      ∧ <["second.json" := JsonFile report]> fs2 !! output_json args2
        = Some (JsonFile report').
Proof.
  cbv zeta.
  assert (Hsame : different_space (image_header example_labels)
                    (image_header ones_mask) = false) by (vm_compute; reflexivity).
  assert (Hin : inputs_of (example_args (Some "mask.nii.gz") false) example_fs
                = inputs_of {| input_labels := "labels.nii.gz";
                               output_json := "second.json";
                               brain_mask := Some "mask.nii.gz"; overwrite := true |}
                    (<["second.json" := EmptyFile]> example_fs)) by reflexivity.
  assert (Hrun1 : main (example_args (Some "mask.nii.gz") false) example_fs
                  = (Ok tt, <["volumes.json" :=
                       JsonFile (compute_volumes (image_data example_labels) [1; 1; 1]%Qc
                                   (Some (image_data ones_mask)))]> example_fs)).
  { rewrite (main_with_mask _ _ example_labels) with (p := "mask.nii.gz"%string)
                                                    (m := ones_mask);
      [|reflexivity|by left|reflexivity|done|reflexivity].
    by rewrite Hsame. }
  assert (Hrun2 : main {| input_labels := "labels.nii.gz"; output_json := "second.json";
                          brain_mask := Some "mask.nii.gz"; overwrite := true |}
                    (<["second.json" := EmptyFile]> example_fs)
                  = (Ok tt, <["second.json" :=
                       JsonFile (compute_volumes (image_data example_labels) [1; 1; 1]%Qc
                                   (Some (image_data ones_mask)))]>
                              (<["second.json" := EmptyFile]> example_fs))).
  { rewrite (main_with_mask _ _ example_labels) with (p := "mask.nii.gz"%string)
                                                    (m := ones_mask);
      [|reflexivity|by right|reflexivity|done|reflexivity].
    by rewrite Hsame. }
  split; [exact Hin|]. split; [exact Hrun1|]. split; [exact Hrun2|].
  exact (main_deterministic _ _ _ _ _ _ Hin Hrun1 Hrun2).
Defined.

(** C9.  A run that raises an error leaves the file system as it was: the
    report file is opened only once the report is computed, and every
    error comes before. *)
Theorem error_leaves_files_unchanged (args : Namespace) (fs fs' : FS) (e : Error) :
  main args fs = (Raise e, fs') → fs' = fs.
Proof.
  rewrite main_prepare. pose proof (prepare_readonly args fs) as Hro.
  destruct (prepare args fs) as [[volumes|e'] fs1]; simpl in Hro; subst fs1; [done|].
  by intros [= _ <-].
Qed.

Lemma error_leaves_files_unchanged_witness :
  main (example_args None false) (<["volumes.json" := EmptyFile]> example_fs)
    = (Raise (OutputExists "volumes.json"), <["volumes.json" := EmptyFile]> example_fs)
  ∧ <["volumes.json" := EmptyFile]> example_fs = <["volumes.json" := EmptyFile]> example_fs.
Proof.
  assert (Hrun : main (example_args None false) (<["volumes.json" := EmptyFile]> example_fs)
                 = (Raise (OutputExists "volumes.json"),
                    <["volumes.json" := EmptyFile]> example_fs)) by reflexivity.
  split; [exact Hrun|].
  exact (error_leaves_files_unchanged _ _ _ _ Hrun).
Defined.

(** ** Further properties of the report *)

Lemma np_sum_perm (a b : list Z) : a ≡ₚ b → np_sum a = np_sum b.
Proof.
  induction 1 as [|x a b _ IH|x y a|a b c _ IH1 _ IH2]; [done| | |congruence].
  - by rewrite !np_sum_cons, IH.
  - rewrite !np_sum_cons. lia.
Qed.

Lemma voxel_count_perm (a b : list Z) (x : Z) : a ≡ₚ b → voxel_count a x = voxel_count b x.
Proof. intros Hab. unfold voxel_count. by rewrite Hab. Qed.

Lemma set_fields_empty_dom (label_data : list Z) (zooms : list Qc)
    (mask : option (list Z)) (lid : Z) :
  dom (set_fields label_data zooms mask lid ∅) =
    match mask with
    | None => {["volume"]}
    | Some _ => {["volume"; "volume_normalized"]}
    end.
Proof.
  unfold set_fields. destruct mask; rewrite !dom_insert_L, dom_empty_L; set_solver.
Qed.

(** X1.  The fields of an entry depend only on whether a brain mask is
    given: without one every entry has the single field [volume], with
    one every entry has [volume] and [volume_normalized], and nothing
    else. *)
Theorem entry_fields (label_data : list Z) (zooms : list Qc)
    (mask : option (list Z)) (lid : Z) (entry : gmap string float64) :
  compute_volumes label_data zooms mask !! lid = Some entry →
  dom entry = match mask with
              | None => {["volume"]}
              | Some _ => {["volume"; "volume_normalized"]}
              end.
Proof.
  intros (_ & _ & ->)%compute_volumes_Some. apply set_fields_empty_dom.
Qed.

Lemma entry_fields_witness :
  let entry := set_fields [4; 0; 4] [1; 1; 1]%Qc (Some [1; 1; 0]) 4 ∅ in
  compute_volumes [4; 0; 4] [1; 1; 1]%Qc (Some [1; 1; 0]) !! 4 = Some entry
  ∧ dom entry = {["volume"; "volume_normalized"]}.
Proof.
  cbv zeta.
  assert (He : compute_volumes [4; 0; 4] [1; 1; 1]%Qc (Some [1; 1; 0]) !! 4
               = Some (set_fields [4; 0; 4] [1; 1; 1]%Qc (Some [1; 1; 0]) 4 ∅))
    by (vm_compute; reflexivity).
  split; [exact He|].
  exact (entry_fields _ _ _ _ _ He).
Defined.

(** X2.  A brain mask only adds the field [volume_normalized]: removing
    that field from every entry of the report computed with a mask gives
    the report computed without one, so neither the set of labels nor any
    [volume] depends on the mask. *)
Theorem mask_only_adds_normalized (label_data : list Z) (zooms : list Qc)
    (mask_data : list Z) :
  delete "volume_normalized" <$> compute_volumes label_data zooms (Some mask_data)
  = compute_volumes label_data zooms None.
Proof.
  apply map_eq. intros lid. rewrite lookup_fmap, !lookup_compute_volumes.
  case_decide; [|done]. cbn [fmap option_fmap option_map]. apply (f_equal Some).
  unfold set_fields. rewrite delete_insert_eq. apply delete_id.
  by rewrite lookup_insert_ne.
Qed.

(** X3.  The report depends on the voxel values only, not on where they
    are: reordering the voxels of the label volume or the voxels of the
    mask leaves the report unchanged.  In particular the labels are never
    compared with the mask voxel by voxel. *)
Theorem voxel_order_irrelevant (label_data label_data' : list Z)
    (zooms : list Qc) (mask mask' : option (list Z)) :
  label_data ≡ₚ label_data' →
  option_Forall2 Permutation mask mask' →
  compute_volumes label_data zooms mask = compute_volumes label_data' zooms mask'.
Proof.
  intros Hd Hm. apply map_eq. intros lid. rewrite !lookup_compute_volumes.
  assert (Hvol : label_volume label_data zooms lid = label_volume label_data' zooms lid).
  { rewrite !label_volume_count. by rewrite (voxel_count_perm _ _ lid Hd). }
  rewrite (decide_ext _ (lid ∈ label_data' ∧ lid ≠ 0) _ _) by (by rewrite Hd).
  case_decide; [|done]. f_equal. unfold set_fields. rewrite Hvol.
  destruct Hm as [m m' Hm|]; [|done]. by rewrite (np_sum_perm _ _ Hm).
Qed.

Lemma voxel_order_irrelevant_witness :
  [1; 0; 2; 2] ≡ₚ reverse [1; 0; 2; 2]
  ∧ option_Forall2 Permutation (Some [1; 1; 0; 0]) (Some (reverse [1; 1; 0; 0]))
  ∧ compute_volumes [1; 0; 2; 2] [Qc_of_Z 1; Qc_of_Z 2; Qc_of_Z 3] (Some [1; 1; 0; 0])
    = compute_volumes (reverse [1; 0; 2; 2])
        [Qc_of_Z 1; Qc_of_Z 2; Qc_of_Z 3] (Some (reverse [1; 1; 0; 0])).
Proof.
  assert (Hd : [1; 0; 2; 2] ≡ₚ reverse [1; 0; 2; 2])
    by (symmetry; apply reverse_Permutation).
  assert (Hm : option_Forall2 Permutation (Some [1; 1; 0; 0]) (Some (reverse [1; 1; 0; 0])))
    by (constructor; symmetry; apply reverse_Permutation).
  split; [exact Hd|]. split; [exact Hm|].
  exact (voxel_order_irrelevant _ _ [Qc_of_Z 1; Qc_of_Z 2; Qc_of_Z 3] _ _ Hd Hm).
Defined.

(** X4.  The test [label_id not in volumes] of line 68 always succeeds:
    when the loop reaches a label, the report holds no entry for it yet,
    and its keys are exactly the labels handled before.  No entry is ever
    written twice. *)
Theorem loop_never_revisits (label_data : list Z) (zooms : list Qc)
    (mask : option (list Z)) (done_ids : list Z) (lid : Z) (todo_ids : list Z) :
  labels_id label_data = done_ids ++ lid :: todo_ids →
  let volumes := foldl (loop_body label_data zooms mask) ∅ done_ids in
  volumes !! lid = None ∧ dom volumes = list_to_set done_ids.
Proof.
  intros Hids. cbv zeta. split.
  - rewrite lookup_foldl_body, lookup_empty.
    pose proof (NoDup_labels_id label_data) as Hnd. rewrite Hids in Hnd.
    apply list.NoDup_app in Hnd as (_ & Hfresh & _).
    case_decide as Hin; [|done]. exfalso.
    apply (Hfresh lid Hin). apply list_elem_of_here.
  - apply set_eq. intros x.
    rewrite elem_of_dom, lookup_foldl_body, lookup_empty, elem_of_list_to_set.
    case_decide; [by eauto|]. split; [by intros []|done].
Qed.

Lemma loop_never_revisits_witness :
  labels_id [5; 0; 3; 5; 9] = [3] ++ 5 :: [9]
  ∧ foldl (loop_body [5; 0; 3; 5; 9] [1; 1; 1]%Qc None) ∅ [3] !! 5 = None
  ∧ dom (foldl (loop_body [5; 0; 3; 5; 9] [1; 1; 1]%Qc None) ∅ [3]) = list_to_set [3].
Proof.
  assert (Hids : labels_id [5; 0; 3; 5; 9] = [3] ++ 5 :: [9]) by (vm_compute; reflexivity).
  split; [exact Hids|].
  exact (loop_never_revisits [5; 0; 3; 5; 9] [1; 1; 1]%Qc None [3] 5 [9] Hids).
Defined.

(** X5.  The labels are enumerated in strictly increasing order: of two
    positions of [labels_id], the later one holds the larger label. *)
Theorem labels_id_ascending (label_data : list Z) (i j : nat) (x y : Z) :
  labels_id label_data !! i = Some x →
  labels_id label_data !! j = Some y →
  (i < j)%nat →
  x < y.
Proof.
  intros Hi Hj Hij.
  pose proof (Sorted_np_unique (np_select label_data (np_ne label_data 0))) as Hs.
  apply Sorted_StronglySorted in Hs; [|intros ???; lia].
  fold (labels_id label_data) in Hs.
  assert (Hle : x ≤ y).
  { revert i j Hi Hj Hij.
    induction Hs as [|z l _ IH Hall]; intros i j Hi Hj Hij; [done|].
    destruct j as [|j]; [lia|]. destruct i as [|i]; simpl in *.
    - injection Hi as ->. rewrite list.Forall_forall in Hall.
      apply Hall. by eapply list_elem_of_lookup_2.
    - apply (IH i j); [done..|lia]. }
  destruct (decide (x = y)) as [->|Hne]; [|lia].
  pose proof (NoDup_lookup _ i j y (NoDup_labels_id label_data) Hi Hj). lia.
Qed.

Lemma labels_id_ascending_witness :
  labels_id [7; 2; 0; 7; 4] !! 0%nat = Some 2
  ∧ labels_id [7; 2; 0; 7; 4] !! 2%nat = Some 7
  ∧ (0 < 2)%nat
  ∧ 2 < 7.
Proof.
  assert (H0 : labels_id [7; 2; 0; 7; 4] !! 0%nat = Some 2) by (vm_compute; reflexivity).
  assert (H2 : labels_id [7; 2; 0; 7; 4] !! 2%nat = Some 7) by (vm_compute; reflexivity).
  assert (Hlt : (0 < 2)%nat) by lia.
  split; [exact H0|]. split; [exact H2|]. split; [exact Hlt|].
  exact (labels_id_ascending _ _ _ _ _ H0 H2 Hlt).
Defined.

Lemma np_sum_scale_mask (k : Z) (mask : list Z) :
  np_sum (scale_mask k mask) = k * np_sum mask.
Proof.
  unfold scale_mask. induction mask as [|v mask IH]; [cbn; lia|].
  rewrite fmap_cons, !np_sum_cons, IH. lia.
Qed.

(** X7.  Multiplying every voxel of the mask by a constant [k]
    multiplies the divisor of [volume_normalized] by [k] and leaves every
    [volume] as it is: with a mask stored as 0/255 instead of 0/1, every
    volume is divided by a number 255 times larger. *)
Theorem scaled_mask_scales_divisor (label_data : list Z) (zooms : list Qc)
    (mask_data : list Z) (k lid : Z) (entry entry' : gmap string float64) :
  compute_volumes label_data zooms (Some mask_data) !! lid = Some entry →
  compute_volumes label_data zooms (Some (scale_mask k mask_data)) !! lid = Some entry' →
  ∃ vol : Qc,
    entry !! "volume" = Some (Finite vol)
    ∧ entry' !! "volume" = Some (Finite vol)
    ∧ entry !! "volume_normalized" = Some (true_divide vol (np_sum mask_data))
    ∧ entry' !! "volume_normalized" = Some (true_divide vol (k * np_sum mask_data)).
Proof.
  intros (_ & _ & ->)%compute_volumes_Some (_ & _ & ->)%compute_volumes_Some.
  eexists. rewrite !fields_volume, !fields_volume_normalized, np_sum_scale_mask.
  done.
Qed.

Lemma scaled_mask_scales_divisor_witness :
  let zooms := [Qc_of_Z 1; Qc_of_Z 1; Qc_of_Z 1] in
  let entry := set_fields [1; 1; 0] zooms (Some [1; 1; 1]) 1 ∅ in
  let entry' := set_fields [1; 1; 0] zooms (Some (scale_mask 255 [1; 1; 1])) 1 ∅ in
  compute_volumes [1; 1; 0] zooms (Some [1; 1; 1]) !! 1 = Some entry
  ∧ compute_volumes [1; 1; 0] zooms (Some (scale_mask 255 [1; 1; 1])) !! 1 = Some entry'
  ∧ ∃ vol : Qc,
      entry !! "volume" = Some (Finite vol)
      ∧ entry' !! "volume" = Some (Finite vol)
      ∧ entry !! "volume_normalized" = Some (true_divide vol (np_sum [1; 1; 1]))
      ∧ entry' !! "volume_normalized" = Some (true_divide vol (255 * np_sum [1; 1; 1])).
Proof.
  cbv zeta.
  assert (He : compute_volumes [1; 1; 0] [Qc_of_Z 1; Qc_of_Z 1; Qc_of_Z 1]
                 (Some [1; 1; 1]) !! 1
               = Some (set_fields [1; 1; 0] [Qc_of_Z 1; Qc_of_Z 1; Qc_of_Z 1]
                         (Some [1; 1; 1]) 1 ∅)) by (vm_compute; reflexivity).
  assert (He' : compute_volumes [1; 1; 0] [Qc_of_Z 1; Qc_of_Z 1; Qc_of_Z 1]
                  (Some (scale_mask 255 [1; 1; 1])) !! 1
                = Some (set_fields [1; 1; 0] [Qc_of_Z 1; Qc_of_Z 1; Qc_of_Z 1]
                          (Some (scale_mask 255 [1; 1; 1])) 1 ∅))
    by (vm_compute; reflexivity).
  split; [exact He|]. split; [exact He'|].
  exact (scaled_mask_scales_divisor _ _ _ _ _ _ _ He He').
Defined.

(** ** Further properties of the geometry check *)

Lemma isclose_within_atol (x y : Qc) : (Qcabs (x - y) <= atol)%Qc → isclose x y.
Proof.
  intros Hxy. unfold isclose. etrans; [exact Hxy|].
  rewrite <- (Qcplus_0_r atol) at 1. apply Qcplus_le_mono_l.
  apply Qcmult_nonneg_nonneg; [done|apply Qcabs_nonneg].
Qed.

Lemma Forall2_diag {A} (R : A → A → Prop) (l : list A) :
  (∀ x, R x x) → Forall2 R l l.
Proof. intros HR. induction l; by constructor. Qed.

(** X8.  The geometry check accepts a mask whose header equals the
    header of the label volume, and more generally a mask with the same
    spacing whose affine differs from the label's by at most [atol = 1e-8]
    in every entry. *)
Theorem geometry_check_tolerance (label_header mask_header : Header) :
  different_space label_header label_header = false
  ∧ (get_zooms label_header = get_zooms mask_header →
     Forall2 (Forall2 (λ x y, (Qcabs (x - y) <= atol)%Qc))
       (get_best_affine label_header) (get_best_affine mask_header) →
     different_space label_header mask_header = false).
Proof.
  assert (Hgen : ∀ lh mh, get_zooms lh = get_zooms mh →
            Forall2 (Forall2 (λ x y, (Qcabs (x - y) <= atol)%Qc))
              (get_best_affine lh) (get_best_affine mh) →
            different_space lh mh = false).
  { intros lh mh Hz Haff. apply different_space_false. split; [done|].
    unfold np_allclose. apply bool_decide_eq_true.
    eapply list.Forall2_impl; [exact Haff|]. intros r r' Hr.
    eapply list.Forall2_impl; [exact Hr|]. apply isclose_within_atol. }
  split; [|apply Hgen].
  apply Hgen; [done|]. apply Forall2_diag. intros r. apply Forall2_diag. intros x.
  replace (x - x)%Qc with 0%Qc by ring. done.
Qed.

Lemma geometry_check_tolerance_witness :
  get_zooms unit_header = get_zooms unit_header
  ∧ Forall2 (Forall2 (λ x y, (Qcabs (x - y) <= atol)%Qc))
      (get_best_affine unit_header) (get_best_affine unit_header)
  ∧ different_space unit_header unit_header = false.
Proof.
  assert (Hz : get_zooms unit_header = get_zooms unit_header) by reflexivity.
  assert (Haff : Forall2 (Forall2 (λ x y, (Qcabs (x - y) <= atol)%Qc))
                   (get_best_affine unit_header) (get_best_affine unit_header)).
  { apply (bool_decide_eq_true_1 _). vm_compute. reflexivity. }
  split; [exact Hz|]. split; [exact Haff|].
  exact (proj2 (geometry_check_tolerance unit_header unit_header) Hz Haff).
Defined.

(** ** Further properties of the runs *)

(** X9.  A run that succeeds has read an image at [input_labels] (and at
    the brain mask path, when one is given), and changes the file system
    in one place only: the file at [output_json] now holds the report of
    these images, whatever it held before; every other file is as it
    was. *)
Theorem success_writes_only_the_report (args : Namespace) (fs fs' : FS) :
  main args fs = (Ok tt, fs') →
  ∃ (label : Image) (brain_mask_data : option (list Z)),
    fs !! input_labels args = Some (ImageFile label)
    ∧ match truthy (brain_mask args) with
      | None => brain_mask_data = None
      | Some p => ∃ m, fs !! p = Some (ImageFile m) ∧ brain_mask_data = Some (image_data m)
      end
    ∧ fs' !! output_json args =
        Some (JsonFile (compute_volumes (image_data label)
                          (get_zooms (image_header label)) brain_mask_data))
    ∧ ∀ path, path ≠ output_json args → fs' !! path = fs !! path.
Proof.
  intros (volumes & Hrun & ->)%main_Ok_inv.
  apply prepare_Ok_inv in Hrun as (label & Hlabel & Hmask).
  exists label.
  destruct (truthy (brain_mask args)) as [p|].
  - destruct Hmask as (m & Hm & _ & ->). exists (Some (image_data m)).
    split; [done|]. split; [by eauto|]. split; [apply lookup_insert_eq|].
    intros path Hpath. by rewrite lookup_insert_ne.
  - subst volumes. exists None.
    split; [done|]. split; [done|]. split; [apply lookup_insert_eq|].
    intros path Hpath. by rewrite lookup_insert_ne.
Qed.

Lemma success_writes_only_the_report_witness :
  let args := example_args (Some "mask.nii.gz") false in
  let fs' := <["volumes.json" :=
                JsonFile (compute_volumes (image_data example_labels) [1; 1; 1]%Qc
                            (Some (image_data ones_mask)))]> example_fs in
  main args example_fs = (Ok tt, fs')
  ∧ ∃ (label : Image) (brain_mask_data : option (list Z)),
      example_fs !! input_labels args = Some (ImageFile label)
      ∧ match truthy (brain_mask args) with
        | None => brain_mask_data = None
        | Some p =>
            ∃ m, example_fs !! p = Some (ImageFile m) ∧ brain_mask_data = Some (image_data m)
        end
      ∧ fs' !! output_json args =
          Some (JsonFile (compute_volumes (image_data label)
                            (get_zooms (image_header label)) brain_mask_data))
      ∧ ∀ path, path ≠ output_json args → fs' !! path = example_fs !! path.
Proof.
  cbv zeta.
  assert (Hsame : different_space (image_header example_labels)
                    (image_header ones_mask) = false) by (vm_compute; reflexivity).
  assert (Hrun : main (example_args (Some "mask.nii.gz") false) example_fs
                 = (Ok tt, <["volumes.json" :=
                      JsonFile (compute_volumes (image_data example_labels) [1; 1; 1]%Qc
                                  (Some (image_data ones_mask)))]> example_fs)).
  { rewrite (main_with_mask _ _ example_labels) with (p := "mask.nii.gz"%string)
                                                    (m := ones_mask);
      [|reflexivity|by left|reflexivity|done|reflexivity].
    by rewrite Hsame. }
  split; [exact Hrun|].
  exact (success_writes_only_the_report _ _ _ Hrun).
Defined.



Lemma prepare_rerun (args : Namespace) (fs fs2 : FS) (volumes : Report) :
  prepare args fs = (Ok volumes, fs) →
  fs2 !! input_labels args = fs !! input_labels args →
  (∀ p, brain_mask args = Some p → fs2 !! p = fs !! p) →
  prepare (with_overwrite args) fs2 = (Ok volumes, fs2).
Proof.
  intros Hrun Hlabel Hmask.
  apply prepare_Ok_inv in Hrun as Hinv. destruct Hinv as (label & Hl & Hm).
  assert (Hopt : ∀ p, brain_mask args = Some p → is_Some (fs2 !! p)).
  { intros p Hp. rewrite (Hmask p Hp). revert Hrun. unfold_M. rewrite Hp.
    intros Hrun'. rewrite Hl in Hrun'.
    rewrite (bool_decide_eq_true_2 (is_Some (Some _))) in Hrun' by eauto.
    cbn [negb] in Hrun'.
    destruct (fs !! p) as [f|] eqn:Hfp; [by eauto|]. exfalso.
    rewrite (bool_decide_eq_false_2 (is_Some None)) in Hrun' by (by intros [? ?]).
    simpl in Hrun'. discriminate Hrun'. }
  rewrite <- Hlabel in Hl. unfold prepare.
  rewrite bind_run, (assert_inputs_exist_ok _ _ _ _ Hl) by exact Hopt.
  rewrite bind_run, assert_outputs_exist_ok by (by right).
  cbn [input_labels brain_mask with_overwrite].
  rewrite bind_run, (load_image_ok _ _ _ Hl).
  unfold load_brain_mask. cbn [brain_mask with_overwrite].
  destruct (truthy (brain_mask args)) as [p|] eqn:Htruthy; [|by subst volumes].
  destruct Hm as (m & Hp & Hsame & ->).
  assert (brain_mask args = Some p) as Hbm.
  { destruct (brain_mask args) as [p'|]; [|done]. simpl in Htruthy.
    case_decide; congruence. }
  rewrite <- (Hmask p Hbm) in Hp.
  by rewrite !bind_run, (load_image_ok _ _ _ Hp), Hsame.
Qed.

(** X11.  Running the script again on its own result changes nothing:
    after a successful run, a second run with the same arguments and
    overwriting requested succeeds and leaves the file system as the
    first run left it, provided the report was not written over one of
    the input images. *)
Theorem rerun_is_idempotent (args : Namespace) (fs fs' : FS) :
  main args fs = (Ok tt, fs') →
  output_json args ≠ input_labels args →
  brain_mask args ≠ Some (output_json args) →
  main (with_overwrite args) fs' = (Ok tt, fs').
Proof.
  intros (volumes & Hrun & ->)%main_Ok_inv Hin Hmask.
  rewrite main_prepare.
  rewrite (prepare_rerun args fs _ volumes Hrun).
  - cbn [output_json with_overwrite]. by rewrite !insert_insert_eq.
  - by rewrite lookup_insert_ne.
  - intros p Hp. rewrite lookup_insert_ne; [done|]. congruence.
Qed.

Lemma rerun_is_idempotent_witness :
  let args := example_args (Some "mask.nii.gz") false in
  let fs' := <["volumes.json" :=
                JsonFile (compute_volumes (image_data example_labels) [1; 1; 1]%Qc
                            (Some (image_data ones_mask)))]> example_fs in
  main args example_fs = (Ok tt, fs')
  ∧ output_json args ≠ input_labels args
  ∧ brain_mask args ≠ Some (output_json args)
  ∧ main (with_overwrite args) fs' = (Ok tt, fs').
Proof.
  cbv zeta.
  assert (Hsame : different_space (image_header example_labels)
                    (image_header ones_mask) = false) by (vm_compute; reflexivity).
  assert (Hrun : main (example_args (Some "mask.nii.gz") false) example_fs
                 = (Ok tt, <["volumes.json" :=
                      JsonFile (compute_volumes (image_data example_labels) [1; 1; 1]%Qc
                                  (Some (image_data ones_mask)))]> example_fs)).
  { rewrite (main_with_mask _ _ example_labels) with (p := "mask.nii.gz"%string)
                                                    (m := ones_mask);
      [|reflexivity|by left|reflexivity|done|reflexivity].
    by rewrite Hsame. }
  assert (Hio : output_json (example_args (Some "mask.nii.gz") false)
                ≠ input_labels (example_args (Some "mask.nii.gz") false)) by discriminate.
  assert (Hmo : brain_mask (example_args (Some "mask.nii.gz") false)
                ≠ Some (output_json (example_args (Some "mask.nii.gz") false)))
    by discriminate.
  split; [exact Hrun|]. split; [exact Hio|]. split; [exact Hmo|].
  exact (rerun_is_idempotent _ _ _ Hrun Hio Hmo).
Defined.
